(** * GTpo utilities (gtpoUtils.h): weak-pointer identity, hashing and
      throwing assertions

    A shallow embedding of [GTpo/src/gtpoUtils.h].  The header is written
    against three pieces of the C++ standard library, which are modelled in
    [Module Std] the way libstdc++ implements them:

    - [<memory>]: [std::shared_ptr] / [std::weak_ptr] are a stored pointer
      plus a pointer to a reference-counted control block; the control
      blocks live in a store that is threaded through every operation that
      touches a counter;
    - [<functional>]: [std::hash<std::shared_ptr<T>>] hashes the stored
      pointer with [std::hash<T*>], which is implementation defined and is
      therefore a section variable;
    - [<stdexcept>]: [std::runtime_error] stores its [what_arg] and shows
      it through [what()] as a C string.

    [Module gtpo] holds the declarations of [namespace gtpo], and
    [Module StdSpecializations] the two specializations the header adds to
    [namespace std]. *)

From Stdlib Require Import ZArith Ascii String Bool Lia.
From stdpp Require Import base gmap.

Local Open Scope Z_scope.

(* ===================================================================== *)
(** ** The standard library pieces the header relies on                   *)
(* ===================================================================== *)

Module Std.

(** Addresses are machine words; [nullptr] is address 0. *)
Definition nullptr : Z := 0.

(** [_Sp_counted_base]: the two counters of a control block.  As in
    libstdc++ the weak counter counts the weak references plus one for the
    whole group of strong references. *)
Record counted_base : Type := CountedBase {
  _M_use_count : nat;
  _M_weak_count : nat
}.

(** The control blocks that are currently allocated, by address. *)
Abbreviation store := (gmap Z counted_base).

(** [std::shared_ptr<T>]: stored pointer ([get()]) and control block. *)
Record shared_ptr : Type := SharedPtr {
  sp_ptr : Z;
  sp_pi : Z
}.

(** [std::weak_ptr<T>]: stored pointer and control block. *)
Record weak_ptr : Type := WeakPtr {
  wp_ptr : Z;
  wp_pi : Z
}.

(** Default-constructed (empty) handles. *)
Definition shared_ptr_empty : shared_ptr := SharedPtr nullptr nullptr.
Definition weak_ptr_empty : weak_ptr := WeakPtr nullptr nullptr.

(** [_M_pi ? _M_pi->_M_get_use_count() : 0] *)
Definition get_use_count (pi : Z) (st : store) : nat :=
  if Z.eqb pi nullptr then 0%nat
  else match st !! pi with
       | Some cb => _M_use_count cb
       | None => 0%nat
       end.

(** [weak_ptr::use_count()] and [weak_ptr::expired()]. *)
Definition use_count (w : weak_ptr) (st : store) : nat :=
  get_use_count (wp_pi w) st.

Definition expired (w : weak_ptr) (st : store) : bool :=
  Nat.eqb (use_count w st) 0.

(** [shared_ptr::use_count()]. *)
Definition shared_use_count (s : shared_ptr) (st : store) : nat :=
  get_use_count (sp_pi s) st.

(** [weak_ptr::owner_before(const weak_ptr&)]: [std::less] on the two
    control-block addresses; the stored pointers take no part. *)
Definition owner_before (l r : weak_ptr) : bool :=
  Z.ltb (wp_pi l) (wp_pi r).

(** [_M_add_ref_copy]: one more strong reference. *)
Definition add_ref_copy (pi : Z) (st : store) : store :=
  if Z.eqb pi nullptr then st
  else match st !! pi with
       | Some cb => <[pi := CountedBase (S (_M_use_count cb)) (_M_weak_count cb)]> st
       | None => st
       end.

(** [_M_weak_add_ref]: one more weak reference. *)
Definition weak_add_ref (pi : Z) (st : store) : store :=
  if Z.eqb pi nullptr then st
  else match st !! pi with
       | Some cb => <[pi := CountedBase (_M_use_count cb) (S (_M_weak_count cb))]> st
       | None => st
       end.

(** [_M_release]: drop a strong reference; the last one disposes of the
    managed object and gives up the group's share of the weak counter,
    and the block is freed when that counter reaches zero too. *)
Definition release (pi : Z) (st : store) : store :=
  if Z.eqb pi nullptr then st
  else match st !! pi with
       | Some cb =>
           match _M_use_count cb with
           | S (S u) => <[pi := CountedBase (S u) (_M_weak_count cb)]> st
           | _ =>
               match _M_weak_count cb with
               | S (S w) => <[pi := CountedBase 0 (S w)]> st
               | _ => delete pi st
               end
           end
       | None => st
       end.

(** A first strong reference to a fresh object at [p], with its control
    block at [pi] ([shared_ptr<T>(T* p)] / [make_shared]). *)
Definition shared_ptr_new (p pi : Z) (st : store) : shared_ptr * store :=
  (SharedPtr p pi, <[pi := CountedBase 1 1]> st).

(** Copy constructor [shared_ptr(const shared_ptr&)]. *)
Definition shared_ptr_copy (r : shared_ptr) (st : store) : shared_ptr * store :=
  (SharedPtr (sp_ptr r) (sp_pi r), add_ref_copy (sp_pi r) st).

(** Aliasing constructor [shared_ptr(const shared_ptr<Y>& r, T* p)]:
    shares ownership with [r] but stores [p]. *)
Definition shared_ptr_alias (r : shared_ptr) (p : Z) (st : store)
  : shared_ptr * store :=
  (SharedPtr p (sp_pi r), add_ref_copy (sp_pi r) st).

(** Destructor [~shared_ptr()]. *)
Definition shared_ptr_dtor (s : shared_ptr) (st : store) : store :=
  release (sp_pi s) st.

(** [weak_ptr(const shared_ptr&)]: a non-owning view of [r]. *)
Definition weak_ptr_of_shared (r : shared_ptr) (st : store) : weak_ptr * store :=
  (WeakPtr (sp_ptr r) (sp_pi r), weak_add_ref (sp_pi r) st).

(** [weak_ptr::lock()]: [__shared_ptr(const __weak_ptr&, nothrow_t)].
    The control block is kept only when [_M_add_ref_lock_nothrow]
    succeeds, i.e. when the use count is not zero; the stored pointer is
    copied only then. *)
Definition lock (w : weak_ptr) (st : store) : shared_ptr * store :=
  let pi := if Nat.eqb (get_use_count (wp_pi w) st) 0 then nullptr else wp_pi w in
  let st' := add_ref_copy pi st in
  let p := if Nat.eqb (get_use_count pi st') 0 then nullptr else wp_ptr w in
  (SharedPtr p pi, st').

(** A [const char*] read as a C string: the characters before the first
    NUL character.  [std::string::c_str()] hands out the whole buffer, so
    this is what a reader of the pointer sees of a [std::string]. *)
Fixpoint c_str (s : string) : string :=
  match s with
  | EmptyString => EmptyString
  | String c s' =>
      if Ascii.eqb c Ascii.zero then EmptyString else String c (c_str s')
  end.

(** No NUL character anywhere in the string. *)
Fixpoint nul_free (s : string) : bool :=
  match s with
  | EmptyString => true
  | String c s' => negb (Ascii.eqb c Ascii.zero) && nul_free s'
  end.

(** [std::runtime_error]: keeps the [std::string] it was constructed
    from; [what()] returns a [const char*] to it, a C string. *)
Record runtime_error : Type := RuntimeError {
  what_arg : string
}.

Definition runtime_error_what (e : runtime_error) : string := c_str (what_arg e).

Section Hash.
(** [std::hash<T*>], left to the implementation by the standard. *)
Variable hash_ptr : Z -> Z.

(** [std::hash<std::shared_ptr<T>>]: [std::hash<T*>()(p.get())]. *)
Definition hash_shared_ptr (p : shared_ptr) : Z := hash_ptr (sp_ptr p).
End Hash.

(** libstdc++'s [std::hash<T*>]: [reinterpret_cast<size_t>(p)]. *)
Definition libstdcxx_hash_ptr (p : Z) : Z := p.

End Std.

(* ===================================================================== *)
(** ** [namespace gtpo]                                                   *)
(* ===================================================================== *)

Module gtpo.

(** What a statement of type [void] can do: return, or leave through a
    thrown object of type [E]. *)
Inductive outcome (E A : Type) : Type :=
| Returns (a : A)
| Throws (e : E).
Arguments Returns {E A} a.
Arguments Throws {E A} e.

Definition raises {E A : Type} (o : outcome E A) : bool :=
  match o with
  | Returns _ => false
  | Throws _ => true
  end.

(** The only thing [assert_throw] asks of its template parameter [E]:
    the expression [E( message )] with [message] a [std::string]. *)
Class FromMessage (E : Type) : Type := construct : string -> E.

(** [class bad_topology_error : public std::runtime_error] *)
Record bad_topology_error : Type := BadTopologyError {
  base : Std.runtime_error
}.

(** [explicit bad_topology_error (const std::string& what_arg)] *)
Definition bad_topology_error_of_string (what_arg : string) : bad_topology_error :=
  BadTopologyError (Std.RuntimeError what_arg).

(** [explicit bad_topology_error (const char* what_arg)] *)
Definition bad_topology_error_of_cstr (what_arg : string) : bad_topology_error :=
  BadTopologyError (Std.RuntimeError what_arg).

(** [bad_topology_error ()] *)
Definition bad_topology_error_default : bad_topology_error :=
  bad_topology_error_of_cstr "GTpo topology unrecoverable error.".

(** [what()], inherited from [std::runtime_error]. *)
Definition what (e : bad_topology_error) : string :=
  Std.runtime_error_what (base e).

(** [E( message )] at [E = bad_topology_error] selects the
    [const std::string&] constructor. *)
#[export] Instance bad_topology_error_from_message : FromMessage bad_topology_error :=
  bad_topology_error_of_string.

(** [template < class E = gtpo::bad_topology_error >
     auto assert_throw( bool expr, std::string message = std::string{ } ) -> void]
    (the default argument is written as a braced empty literal). *)
Definition assert_throw {E : Type} `{FromMessage E}
    (expr : bool) (message : string) : outcome E unit :=
  if negb expr then Throws (construct message) else Returns tt.

(** The default argument of [message]: the empty [std::string]. *)
Definition assert_throw_default_message : string := EmptyString.

(** The call [assert_throw( expr )]: default [E], default [message]. *)
Definition assert_throw_no_message (expr : bool) : outcome bad_topology_error unit :=
  assert_throw (E := bad_topology_error) expr assert_throw_default_message.

(** [template < class T >
     auto compare_weak_ptr( const std::weak_ptr<T>& left,
                            const std::weak_ptr<T>& right ) -> bool const] *)
Definition compare_weak_ptr (left right : Std.weak_ptr) : bool :=
  negb (Std.owner_before left right) && negb (Std.owner_before right left).

(** [struct ContainerConfig]: the two primary templates are empty structs. *)
Module ContainerConfig.
Inductive insert (T : Type) : Type := Insert.
Inductive remove (T : Type) : Type := Remove.
End ContainerConfig.

End gtpo.

(* ===================================================================== *)
(** ** The specializations added to [namespace std]                       *)
(* ===================================================================== *)

Module StdSpecializations.

Section Hash.
Variable hash_ptr : Z -> Z.

(** [std::hash< std::weak_ptr< T > >::operator()]:
    [return std::hash< typename std::shared_ptr<T> >()( key.lock() );]
    The temporary returned by [lock()] dies at the end of the full
    expression. *)
Definition hash_weak_ptr (key : Std.weak_ptr) (st : Std.store) : Z * Std.store :=
  let '(tmp, st1) := Std.lock key st in
  let r := Std.hash_shared_ptr hash_ptr tmp in
  (r, Std.shared_ptr_dtor tmp st1).
End Hash.

(** [std::equal_to< std::weak_ptr< T > >::operator()] *)
Definition equal_to_weak_ptr (left right : Std.weak_ptr) : bool :=
  negb (Std.owner_before left right) && negb (Std.owner_before right left).

End StdSpecializations.

Import Std gtpo StdSpecializations.

(* ===================================================================== *)
(** ** A concrete scenario                                                *)
(* ===================================================================== *)

(** One object at address 8192 whose control block is at 4096, a
    second object at 8448 with its block at 4352, and handles to them:
    [e] and [e'] own the two objects, [q] is an aliasing strong reference
    that shares [e]'s ownership but points at address 8200 (a member of
    the first object), [w], [w2] view [e], [wq] views [q], [w'] views
    [e']. *)
Module Scenario.
Definition e_st := shared_ptr_new 8192 4096 ∅.
Definition e := fst e_st.
Definition e'_st := shared_ptr_new 8448 4352 (snd e_st).
Definition e' := fst e'_st.
Definition q_st := shared_ptr_alias e 8200 (snd e'_st).
Definition q := fst q_st.
Definition w_st := weak_ptr_of_shared e (snd q_st).
Definition w := fst w_st.
Definition w2_st := weak_ptr_of_shared e (snd w_st).
Definition w2 := fst w2_st.
Definition wq_st := weak_ptr_of_shared q (snd w2_st).
Definition wq := fst wq_st.
Definition w'_st := weak_ptr_of_shared e' (snd wq_st).
Definition w' := fst w'_st.
(** The store once all seven handles exist. *)
Definition st : store := snd w'_st.
(** The store after [e'] has been destroyed: [w'] is expired. *)
Definition st_dead : store := shared_ptr_dtor e' st.
End Scenario.

(* ===================================================================== *)
(** ** Ownership groups                                                   *)
(* ===================================================================== *)

(** The ownership group of a handle is named by its control block: all
    the handles that were copied, directly or not, from one first strong
    reference carry that reference's block. *)
Definition ownership_group (w : weak_ptr) : Z := wp_pi w.

Definition same_ownership_group (a b : weak_ptr) : Prop :=
  ownership_group a = ownership_group b.

(** A reference is live in a store when it is not expired there. *)
Definition live (w : weak_ptr) (st : store) : Prop := expired w st = false.

(* ===================================================================== *)
(** ** Sanity checks on the scenario                                      *)
(* ===================================================================== *)

Example scenario_counts :
  (Scenario.st !! 4096, Scenario.st !! 4352) = (Some (CountedBase 2 4), Some (CountedBase 1 2)).
Proof. reflexivity. Qed.

Example scenario_handles :
  Scenario.w = WeakPtr 8192 4096 /\ Scenario.w2 = WeakPtr 8192 4096 /\
  Scenario.wq = WeakPtr 8200 4096 /\ Scenario.w' = WeakPtr 8448 4352.
Proof. repeat split. Qed.

Example scenario_dead :
  Scenario.st_dead !! 4352 = Some (CountedBase 0 1) /\
  expired Scenario.w' Scenario.st = false /\
  expired Scenario.w' Scenario.st_dead = true.
Proof. repeat split. Qed.

Example scenario_lock_dead :
  lock Scenario.w' Scenario.st_dead = (shared_ptr_empty, Scenario.st_dead).
Proof. reflexivity. Qed.

(* ===================================================================== *)
(** ** The ownership order                                                *)
(* ===================================================================== *)

Lemma owner_before_irrefl (a : weak_ptr) : owner_before a a = false.
Proof. unfold owner_before. apply Z.ltb_irrefl. Qed.

Lemma owner_before_trans (a b c : weak_ptr) :
  owner_before a b = true -> owner_before b c = true -> owner_before a c = true.
Proof. unfold owner_before. rewrite !Z.ltb_lt. lia. Qed.

(** Neither handle orders before the other exactly when the two control
    blocks are the same one. *)
Lemma owner_incomparable_iff (a b : weak_ptr) :
  negb (owner_before a b) && negb (owner_before b a) = true <->
  same_ownership_group a b.
Proof.
  unfold owner_before, same_ownership_group, ownership_group.
  rewrite andb_true_iff, !negb_true_iff, !Z.ltb_ge. lia.
Qed.

Lemma equal_to_weak_ptr_iff (a b : weak_ptr) :
  equal_to_weak_ptr a b = true <-> same_ownership_group a b.
Proof. apply owner_incomparable_iff. Qed.

Lemma compare_weak_ptr_iff (a b : weak_ptr) :
  compare_weak_ptr a b = true <-> same_ownership_group a b.
Proof. apply owner_incomparable_iff. Qed.

Lemma equal_to_weak_ptr_comm (a b : weak_ptr) :
  equal_to_weak_ptr a b = equal_to_weak_ptr b a.
Proof. unfold equal_to_weak_ptr. apply andb_comm. Qed.

Lemma compare_weak_ptr_comm (a b : weak_ptr) :
  compare_weak_ptr a b = compare_weak_ptr b a.
Proof. unfold compare_weak_ptr. apply andb_comm. Qed.

(* ===================================================================== *)
(** ** Counters                                                           *)
(* ===================================================================== *)

Lemma get_use_count_nullptr (st : store) : get_use_count nullptr st = 0%nat.
Proof. reflexivity. Qed.

(** A block with a non-zero use count is a real, allocated block. *)
Lemma get_use_count_pos (pi : Z) (st : store) :
  get_use_count pi st <> 0%nat ->
  pi <> nullptr /\
  exists cb, st !! pi = Some cb /\ _M_use_count cb = get_use_count pi st.
Proof.
  unfold get_use_count. destruct (Z.eqb_spec pi nullptr) as [->|Hne].
  - intros H. now contradiction H.
  - destruct (st !! pi) as [cb|]; intros H.
    + split; [assumption | now exists cb].
    + now contradiction H.
Qed.

Lemma get_use_count_add_ref_copy (pi : Z) (st : store) :
  get_use_count pi st <> 0%nat ->
  get_use_count pi (add_ref_copy pi st) = S (get_use_count pi st).
Proof.
  intros H. destruct (get_use_count_pos pi st H) as [Hne [cb [Hcb Hu]]].
  unfold add_ref_copy, get_use_count.
  destruct (Z.eqb_spec pi nullptr) as [?|_]; [contradiction|].
  rewrite Hcb, lookup_insert_eq. reflexivity.
Qed.

(** Taking a weak reference leaves every use count as it was. *)
Lemma get_use_count_weak_add_ref (pi pi' : Z) (st : store) :
  get_use_count pi (weak_add_ref pi' st) = get_use_count pi st.
Proof.
  unfold weak_add_ref, get_use_count.
  destruct (Z.eqb pi' nullptr); [reflexivity|].
  destruct (st !! pi') as [cb|] eqn:Hcb; [|reflexivity].
  destruct (Z.eqb pi nullptr); [reflexivity|].
  destruct (decide (pi' = pi)) as [->|Hne].
  - rewrite lookup_insert_eq, Hcb. reflexivity.
  - rewrite lookup_insert_ne by assumption. reflexivity.
Qed.

(** A strong reference that is added and then dropped again leaves the
    store as it found it. *)
Lemma release_add_ref_copy (pi : Z) (st : store) :
  get_use_count pi st <> 0%nat ->
  release pi (add_ref_copy pi st) = st.
Proof.
  intros H. destruct (get_use_count_pos pi st H) as [Hne [cb [Hcb Hu]]].
  unfold add_ref_copy, release.
  destruct (Z.eqb_spec pi nullptr) as [?|_]; [contradiction|].
  rewrite Hcb, lookup_insert_eq. cbn.
  destruct cb as [u wc]. cbn in *. rewrite <- Hu in H.
  destruct u as [|u]; [now contradiction H|].
  rewrite insert_insert_eq. now apply insert_id.
Qed.

(* ===================================================================== *)
(** ** [lock()]                                                           *)
(* ===================================================================== *)

Lemma lock_live (w : weak_ptr) (st : store) :
  live w st ->
  lock w st = (SharedPtr (wp_ptr w) (wp_pi w), add_ref_copy (wp_pi w) st).
Proof.
  unfold live, expired, use_count, lock. intros H.
  apply Nat.eqb_neq in H. pose proof (get_use_count_add_ref_copy _ _ H) as Hs.
  destruct (Nat.eqb_spec (get_use_count (wp_pi w) st) 0) as [?|_]; [contradiction|].
  rewrite Hs. reflexivity.
Qed.

Lemma lock_expired (w : weak_ptr) (st : store) :
  expired w st = true -> lock w st = (shared_ptr_empty, st).
Proof.
  unfold expired, use_count, lock. intros H. rewrite H. reflexivity.
Qed.

(* ===================================================================== *)
(** ** The hash                                                           *)
(* ===================================================================== *)

Section HashFacts.
Variable hash_ptr : Z -> Z.

(** On a live reference the hash is the pointer hash of the stored
    pointer, and the store is left untouched. *)
Lemma hash_weak_ptr_live (w : weak_ptr) (st : store) :
  live w st ->
  hash_weak_ptr hash_ptr w st = (hash_ptr (wp_ptr w), st).
Proof.
  intros H. unfold hash_weak_ptr. rewrite (lock_live w st H).
  unfold shared_ptr_dtor, hash_shared_ptr. cbn.
  rewrite release_add_ref_copy; [reflexivity|].
  unfold live, expired, use_count in H. now apply Nat.eqb_neq in H.
Qed.

(** On an expired or empty reference it is the pointer hash of
    [nullptr]. *)
Lemma hash_weak_ptr_expired (w : weak_ptr) (st : store) :
  expired w st = true ->
  hash_weak_ptr hash_ptr w st = (hash_ptr nullptr, st).
Proof.
  intros H. unfold hash_weak_ptr. rewrite (lock_expired w st H). reflexivity.
Qed.

(** Hashing never changes the store. *)
Lemma hash_weak_ptr_store (w : weak_ptr) (st : store) :
  snd (hash_weak_ptr hash_ptr w st) = st.
Proof.
  destruct (expired w st) eqn:H.
  - now rewrite hash_weak_ptr_expired.
  - now rewrite hash_weak_ptr_live.
Qed.

(** Two live references with the same stored pointer hash alike. *)
Lemma hash_weak_ptr_same_pointer (a b : weak_ptr) (st : store) :
  live a st -> live b st -> wp_ptr a = wp_ptr b ->
  fst (hash_weak_ptr hash_ptr a st) = fst (hash_weak_ptr hash_ptr b st).
Proof.
  intros Ha Hb Hp. rewrite !hash_weak_ptr_live by assumption. cbn. now rewrite Hp.
Qed.

End HashFacts.

(* ===================================================================== *)
(** ** Weak-identity equality                                             *)
(* ===================================================================== *)

(** C9.  [gtpo::compare_weak_ptr] and the [std::equal_to<std::weak_ptr<T>>]
    specialization return the same boolean on every pair of weak
    references: the two entry points are one function. *)
Theorem compare_weak_ptr_is_equal_to (a b : weak_ptr) :
  compare_weak_ptr a b = equal_to_weak_ptr a b.
Proof. unfold compare_weak_ptr, equal_to_weak_ptr. reflexivity. Qed.

(** C2.  On non-expired weak references the weak-identity equality is an
    equivalence relation: reflexive, symmetric and transitive.  Stated
    for the [std::equal_to] specialization and for [compare_weak_ptr]. *)
Theorem weak_equality_is_equivalence (st : store) (a b c : weak_ptr) :
  live a st -> live b st -> live c st ->
  (equal_to_weak_ptr a a = true /\
   equal_to_weak_ptr a b = equal_to_weak_ptr b a /\
   (equal_to_weak_ptr a b = true -> equal_to_weak_ptr b c = true ->
    equal_to_weak_ptr a c = true)) /\
  (compare_weak_ptr a a = true /\
   compare_weak_ptr a b = compare_weak_ptr b a /\
   (compare_weak_ptr a b = true -> compare_weak_ptr b c = true ->
    compare_weak_ptr a c = true)).
Proof.
  intros _ _ _. split; split.
  - apply equal_to_weak_ptr_iff. reflexivity.
  - split; [apply equal_to_weak_ptr_comm|].
    rewrite !equal_to_weak_ptr_iff. unfold same_ownership_group. congruence.
  - apply compare_weak_ptr_iff. reflexivity.
  - split; [apply compare_weak_ptr_comm|].
    rewrite !compare_weak_ptr_iff. unfold same_ownership_group. congruence.
Qed.

Lemma weak_equality_is_equivalence_witness :
  (live Scenario.w Scenario.st /\ live Scenario.w2 Scenario.st /\
   live Scenario.wq Scenario.st) /\
  (equal_to_weak_ptr Scenario.w Scenario.w = true /\
   equal_to_weak_ptr Scenario.w Scenario.w2 = equal_to_weak_ptr Scenario.w2 Scenario.w /\
   (equal_to_weak_ptr Scenario.w Scenario.w2 = true ->
    equal_to_weak_ptr Scenario.w2 Scenario.wq = true ->
    equal_to_weak_ptr Scenario.w Scenario.wq = true)) /\
  (compare_weak_ptr Scenario.w Scenario.w = true /\
   compare_weak_ptr Scenario.w Scenario.w2 = compare_weak_ptr Scenario.w2 Scenario.w /\
   (compare_weak_ptr Scenario.w Scenario.w2 = true ->
    compare_weak_ptr Scenario.w2 Scenario.wq = true ->
    compare_weak_ptr Scenario.w Scenario.wq = true)).
Proof.
  split; [repeat split|].
  apply (weak_equality_is_equivalence Scenario.st Scenario.w Scenario.w2 Scenario.wq);
    reflexivity.
Defined.

(** C3.  On non-expired weak references, [compare_weak_ptr] and the
    [std::equal_to] specialization return true exactly when the two
    references are in the same ownership group, and they compute it by
    asking [owner_before] in both directions and requiring that neither
    reference orders before the other. *)
Theorem weak_equality_iff_same_group (st : store) (a b : weak_ptr) :
  live a st -> live b st ->
  (compare_weak_ptr a b = true <-> same_ownership_group a b) /\
  (equal_to_weak_ptr a b = true <-> same_ownership_group a b) /\
  (compare_weak_ptr a b = true <->
   owner_before a b = false /\ owner_before b a = false) /\
  (equal_to_weak_ptr a b = true <->
   owner_before a b = false /\ owner_before b a = false).
Proof.
  intros _ _. split; [apply compare_weak_ptr_iff|].
  split; [apply equal_to_weak_ptr_iff|].
  unfold compare_weak_ptr, equal_to_weak_ptr.
  rewrite andb_true_iff, !negb_true_iff. tauto.
Qed.

Lemma weak_equality_iff_same_group_witness :
  (live Scenario.w Scenario.st /\ live Scenario.w' Scenario.st) /\
  (compare_weak_ptr Scenario.w Scenario.w' = true <->
   same_ownership_group Scenario.w Scenario.w') /\
  (equal_to_weak_ptr Scenario.w Scenario.w' = true <->
   same_ownership_group Scenario.w Scenario.w') /\
  (compare_weak_ptr Scenario.w Scenario.w' = true <->
   owner_before Scenario.w Scenario.w' = false /\
   owner_before Scenario.w' Scenario.w = false) /\
  (equal_to_weak_ptr Scenario.w Scenario.w' = true <->
   owner_before Scenario.w Scenario.w' = false /\
   owner_before Scenario.w' Scenario.w = false).
Proof.
  split; [repeat split|].
  apply (weak_equality_iff_same_group Scenario.st Scenario.w Scenario.w'); reflexivity.
Defined.

(** Two references into different groups are told apart, two into the
    same group are not, whatever pointer they store. *)
Example weak_equality_scenario :
  equal_to_weak_ptr Scenario.w Scenario.w' = false /\
  equal_to_weak_ptr Scenario.w Scenario.w2 = true /\
  equal_to_weak_ptr Scenario.w Scenario.wq = true.
Proof. repeat split. Qed.

(* ===================================================================== *)
(** ** Weak-identity hash                                                 *)
(* ===================================================================== *)

(** C6.  For a weak reference to a live entity, the weak-identity hash is
    the standard strong-reference hash of the temporary strong reference
    that [lock()] yields: that temporary stores the same pointer, belongs
    to the same group and counts as one more owner while it exists; once
    it is gone the store is what it was. *)
Theorem hash_is_hash_of_locked
    (hash_ptr : Z -> Z) (st : store) (a : weak_ptr) :
  live a st ->
  exists (tmp : shared_ptr) (st1 : store),
    lock a st = (tmp, st1) /\
    sp_ptr tmp = wp_ptr a /\
    sp_pi tmp = wp_pi a /\
    shared_use_count tmp st1 = S (use_count a st) /\
    hash_weak_ptr hash_ptr a st = (hash_shared_ptr hash_ptr tmp, st).
Proof.
  intros H.
  exists (SharedPtr (wp_ptr a) (wp_pi a)), (add_ref_copy (wp_pi a) st).
  split; [now apply lock_live|].
  split; [reflexivity|]. split; [reflexivity|].
  split.
  - unfold shared_use_count, use_count. cbn.
    apply get_use_count_add_ref_copy.
    unfold live, expired, use_count in H. now apply Nat.eqb_neq in H.
  - now rewrite hash_weak_ptr_live.
Qed.

Lemma hash_is_hash_of_locked_witness :
  live Scenario.wq Scenario.st /\
  exists (tmp : shared_ptr) (st1 : store),
    lock Scenario.wq Scenario.st = (tmp, st1) /\
    sp_ptr tmp = wp_ptr Scenario.wq /\
    sp_pi tmp = wp_pi Scenario.wq /\
    shared_use_count tmp st1 = S (use_count Scenario.wq Scenario.st) /\
    hash_weak_ptr libstdcxx_hash_ptr Scenario.wq Scenario.st =
      (hash_shared_ptr libstdcxx_hash_ptr tmp, Scenario.st).
Proof.
  split; [reflexivity|].
  apply (hash_is_hash_of_locked libstdcxx_hash_ptr Scenario.st Scenario.wq).
  reflexivity.
Defined.

(** C10.  The weak-identity hash of an expired or empty weak reference is
    defined: it is the standard hash of a null strong reference, so any
    two expired or empty weak references hash to the same value. *)
Theorem hash_of_expired
    (hash_ptr : Z -> Z) (st : store) (w w' : weak_ptr) :
  expired w st = true -> expired w' st = true ->
  hash_weak_ptr hash_ptr w st = (hash_shared_ptr hash_ptr shared_ptr_empty, st) /\
  fst (hash_weak_ptr hash_ptr w st) = fst (hash_weak_ptr hash_ptr w' st).
Proof.
  intros H H'. rewrite !hash_weak_ptr_expired by assumption. split; reflexivity.
Qed.

Lemma hash_of_expired_witness :
  (expired Scenario.w' Scenario.st_dead = true /\
   expired weak_ptr_empty Scenario.st_dead = true) /\
  hash_weak_ptr libstdcxx_hash_ptr Scenario.w' Scenario.st_dead =
    (hash_shared_ptr libstdcxx_hash_ptr shared_ptr_empty, Scenario.st_dead) /\
  fst (hash_weak_ptr libstdcxx_hash_ptr Scenario.w' Scenario.st_dead) =
  fst (hash_weak_ptr libstdcxx_hash_ptr weak_ptr_empty Scenario.st_dead).
Proof.
  split; [split; reflexivity|].
  apply (hash_of_expired libstdcxx_hash_ptr Scenario.st_dead Scenario.w' weak_ptr_empty);
    reflexivity.
Defined.

(** C7.  Round trip: when [w] and then a fresh [w2] are taken from a live
    strong reference [e], [w] resolves back to [e], the equality holds
    between [w] and [w2], and the two hash alike. *)
Theorem weak_round_trip
    (hash_ptr : Z -> Z) (st : store) (e : shared_ptr) :
  shared_use_count e st <> 0%nat ->
  let '(w, st1) := weak_ptr_of_shared e st in
  let '(w2, st2) := weak_ptr_of_shared e st1 in
  fst (lock w st2) = e /\
  equal_to_weak_ptr w w2 = true /\
  compare_weak_ptr w w2 = true /\
  fst (hash_weak_ptr hash_ptr w st2) = fst (hash_weak_ptr hash_ptr w2 st2).
Proof.
  intros H. unfold weak_ptr_of_shared. cbv beta iota.
  assert (Hl : live (WeakPtr (sp_ptr e) (sp_pi e))
                 (weak_add_ref (sp_pi e) (weak_add_ref (sp_pi e) st))).
  { unfold live, expired, use_count. cbn.
    rewrite !get_use_count_weak_add_ref. now apply Nat.eqb_neq. }
  split; [rewrite (lock_live _ _ Hl); now destruct e|].
  split; [apply equal_to_weak_ptr_iff; reflexivity|].
  split; [apply compare_weak_ptr_iff; reflexivity|].
  reflexivity.
Qed.

Lemma weak_round_trip_witness :
  shared_use_count Scenario.e (snd Scenario.q_st) <> 0%nat /\
  fst (lock Scenario.w (snd Scenario.w2_st)) = Scenario.e /\
  equal_to_weak_ptr Scenario.w Scenario.w2 = true /\
  compare_weak_ptr Scenario.w Scenario.w2 = true /\
  fst (hash_weak_ptr libstdcxx_hash_ptr Scenario.w (snd Scenario.w2_st)) =
  fst (hash_weak_ptr libstdcxx_hash_ptr Scenario.w2 (snd Scenario.w2_st)).
Proof.
  split; [discriminate|].
  apply (weak_round_trip libstdcxx_hash_ptr (snd Scenario.q_st) Scenario.e).
  discriminate.
Defined.

(** C1, evaluated where it fails.  In the scenario [w] and [wq] are both
    live and in one ownership group, so both equality entry points
    answer true; [wq] was taken from the aliasing strong reference, so it
    stores another pointer, and with libstdc++'s pointer hash the two
    weak-identity hashes are 8192 and 8200. *)
Theorem hash_differs_inside_one_group :
  live Scenario.w Scenario.st /\ live Scenario.wq Scenario.st /\
  equal_to_weak_ptr Scenario.w Scenario.wq = true /\
  compare_weak_ptr Scenario.w Scenario.wq = true /\
  fst (hash_weak_ptr libstdcxx_hash_ptr Scenario.w Scenario.st) = 8192 /\
  fst (hash_weak_ptr libstdcxx_hash_ptr Scenario.wq Scenario.st) = 8200 /\
  fst (hash_weak_ptr libstdcxx_hash_ptr Scenario.w Scenario.st) <>
  fst (hash_weak_ptr libstdcxx_hash_ptr Scenario.wq Scenario.st).
Proof. repeat split. discriminate. Qed.

(** What does hold in general: equal live references that store the same
    pointer hash alike, and equal live references hash alike only if the
    pointer hash identifies their stored pointers. *)
Lemma equal_same_pointer_hash
    (hash_ptr : Z -> Z) (st : store) (a b : weak_ptr) :
  live a st -> live b st ->
  equal_to_weak_ptr a b = true -> wp_ptr a = wp_ptr b ->
  fst (hash_weak_ptr hash_ptr a st) = fst (hash_weak_ptr hash_ptr b st).
Proof. intros Ha Hb _ Hp. now apply hash_weak_ptr_same_pointer. Qed.

Lemma equal_hash_iff_pointer_hash
    (hash_ptr : Z -> Z) (st : store) (a b : weak_ptr) :
  live a st -> live b st ->
  (fst (hash_weak_ptr hash_ptr a st) = fst (hash_weak_ptr hash_ptr b st) <->
   hash_ptr (wp_ptr a) = hash_ptr (wp_ptr b)).
Proof. intros Ha Hb. rewrite !hash_weak_ptr_live by assumption. reflexivity. Qed.

(* ===================================================================== *)
(** ** [assert_throw]                                                     *)
(* ===================================================================== *)

(** Whatever the error type, [assert_throw] throws exactly when [expr] is
    false, and what it throws is [E( message )]. *)
Lemma assert_throw_cases {E : Type} `{FromMessage E} (expr : bool) (message : string) :
  assert_throw (E := E) expr message =
  if expr then Returns tt else Throws (construct message).
Proof. now destruct expr. Qed.

Lemma what_of_string (message : string) :
  what (bad_topology_error_of_string message) = c_str message.
Proof. reflexivity. Qed.

(** A string reads back whole as a C string exactly when it holds no NUL
    character. *)
Lemma c_str_id_iff_nul_free (s : string) :
  c_str s = s <-> nul_free s = true.
Proof.
  induction s as [|c s IH]; cbn.
  - split; reflexivity.
  - destruct (Ascii.eqb c Ascii.zero); cbn.
    + split; discriminate.
    + rewrite <- IH. split.
      * intros H. now injection H.
      * intros H. now rewrite H.
Qed.

(** What is read is itself free of NUL characters and reads back the
    same. *)
Lemma c_str_nul_free (s : string) : nul_free (c_str s) = true.
Proof.
  induction s as [|c s IH]; cbn; [reflexivity|].
  destruct (Ascii.eqb c Ascii.zero) eqn:Hc; cbn; [reflexivity|].
  now rewrite Hc, IH.
Qed.

Lemma c_str_idempotent (s : string) : c_str (c_str s) = c_str s.
Proof. apply c_str_id_iff_nul_free, c_str_nul_free. Qed.

(** C4 as stated fails: at a message with a NUL character inside, here
    the five characters a, b, NUL, c, d, the diagnostic of the raised
    error is not the message. *)
Lemma assert_throw_diagnostic_stops_at_nul :
  ~ (exists e : bad_topology_error,
       assert_throw false
         (String "a"%char (String "b"%char (String Ascii.zero
            (String "c"%char (String "d"%char EmptyString))))) = Throws e /\
       what e =
         String "a"%char (String "b"%char (String Ascii.zero
            (String "c"%char (String "d"%char EmptyString))))).
Proof.
  intros [e [He Hw]]. cbv in He. injection He as <-. cbv in Hw. discriminate Hw.
Qed.

Example assert_throw_diagnostic_at_nul :
  what (bad_topology_error_of_string
          (String "a"%char (String "b"%char (String Ascii.zero
             (String "c"%char (String "d"%char EmptyString)))))) = "ab"%string.
Proof. reflexivity. Qed.

(** C4, amended.  For every boolean [expr] and every message, the empty
    one included, [assert_throw] raises if and only if [expr] is false;
    when [expr] is true it returns with no effect, and when [expr] is
    false the diagnostic of the raised error is the message read as a C
    string, its characters before the first NUL character; it is exactly
    the message if and only if the message holds no NUL character. *)
Theorem assert_throw_raises_iff_false (expr : bool) (message : string) :
  (raises (assert_throw (E := bad_topology_error) expr message) = true <->
   expr = false) /\
  (expr = true ->
   assert_throw (E := bad_topology_error) expr message = Returns tt) /\
  (expr = false ->
   exists e : bad_topology_error,
     assert_throw expr message = Throws e /\
     what e = c_str message /\
     (what e = message <-> nul_free message = true)).
Proof.
  rewrite assert_throw_cases. destruct expr; cbn.
  - split; [split; discriminate|]. split; [reflexivity | discriminate].
  - split; [split; reflexivity|]. split; [discriminate|].
    intros _. exists (bad_topology_error_of_string message).
    split; [reflexivity|]. rewrite what_of_string.
    split; [reflexivity | apply c_str_id_iff_nul_free].
Qed.

Example assert_throw_empty_message :
  assert_throw (E := bad_topology_error) true EmptyString = Returns tt /\
  assert_throw false EmptyString = Throws (bad_topology_error_of_string EmptyString) /\
  assert_throw false "node is null"%string =
    Throws (bad_topology_error_of_string "node is null").
Proof. repeat split. Qed.

(** C5 as stated fails: [assert_throw( false )] without a message does not
    raise an error whose diagnostic is the text of the default
    constructor. *)
Lemma assert_throw_no_message_not_generic :
  ~ (exists e : bad_topology_error,
       assert_throw_no_message false = Throws e /\
       what e = "GTpo topology unrecoverable error."%string).
Proof.
  intros [e [He Hw]]. cbv in He. injection He as <-. discriminate Hw.
Qed.

(** C5, amended.  [assert_throw( false )] without a message raises a
    [bad_topology_error] whose diagnostic is the empty string, the default
    value of the [message] parameter; the text
    "GTpo topology unrecoverable error." is the diagnostic of a
    default-constructed [bad_topology_error]. *)
Theorem assert_throw_no_message_diagnostic :
  (exists e : bad_topology_error,
     assert_throw_no_message false = Throws e /\ what e = EmptyString) /\
  what bad_topology_error_default = "GTpo topology unrecoverable error."%string.
Proof.
  split; [|reflexivity].
  exists (bad_topology_error_of_string EmptyString). split; reflexivity.
Qed.

(* ===================================================================== *)
(** ** [ContainerConfig]                                                  *)
(* ===================================================================== *)

(** The primary templates are empty structs: they have a single value
    and carry no operation at all. *)
Remark insert_primary_is_empty (T : Type) (x y : gtpo.ContainerConfig.insert T) : x = y.
Proof. now destruct x, y. Qed.

Remark remove_primary_is_empty (T : Type) (x y : gtpo.ContainerConfig.remove T) : x = y.
Proof. now destruct x, y. Qed.

(* ===================================================================== *)
(** ** Further properties of the hash and of the equality                 *)
(* ===================================================================== *)

(** Dropping the only strong reference of a group leaves the group with
    a use count of zero, whether or not the block itself survives. *)
Lemma get_use_count_release_last (pi : Z) (st : store) :
  get_use_count pi st = 1%nat -> get_use_count pi (release pi st) = 0%nat.
Proof.
  intros H.
  assert (Hn : get_use_count pi st <> 0%nat) by (rewrite H; discriminate).
  destruct (get_use_count_pos pi st Hn) as [Hne [cb [Hcb Hu]]].
  rewrite H in Hu. unfold release, get_use_count.
  destruct (Z.eqb_spec pi nullptr) as [?|_]; [contradiction|].
  rewrite Hcb. destruct cb as [u wc]. cbn in Hu. subst u. cbn.
  destruct wc as [|[|wc]].
  - now rewrite lookup_delete_eq.
  - now rewrite lookup_delete_eq.
  - now rewrite lookup_insert_eq.
Qed.

(** Views taken after one more owner joined a live group are live. *)
Lemma live_after_joining (p pi : Z) (st : store) :
  get_use_count pi st <> 0%nat ->
  live (WeakPtr p pi) (weak_add_ref pi (weak_add_ref pi (add_ref_copy pi st))).
Proof.
  intros H. unfold live, expired, use_count. cbn.
  rewrite !get_use_count_weak_add_ref, get_use_count_add_ref_copy by assumption.
  reflexivity.
Qed.

(** X1.  The hash in closed form, for every weak reference and every
    store: the pointer hash of the stored pointer when the reference is
    live, of [nullptr] when it is expired or empty; and in both cases the
    reference counts are left exactly as they were. *)
Theorem hash_weak_ptr_closed_form
    (hash_ptr : Z -> Z) (w : weak_ptr) (st : store) :
  hash_weak_ptr hash_ptr w st =
  (hash_ptr (if expired w st then nullptr else wp_ptr w), st).
Proof.
  destruct (expired w st) eqn:H.
  - now apply hash_weak_ptr_expired.
  - now apply hash_weak_ptr_live.
Qed.

(** X2.  The hash does not tell ownership groups apart: two live
    references that store the same pointer but belong to different groups
    are unequal for both equality entry points and still hash alike. *)
Theorem same_pointer_other_group_collides
    (hash_ptr : Z -> Z) (st : store) (a b : weak_ptr) :
  live a st -> live b st ->
  wp_ptr a = wp_ptr b -> wp_pi a <> wp_pi b ->
  equal_to_weak_ptr a b = false /\
  compare_weak_ptr a b = false /\
  fst (hash_weak_ptr hash_ptr a st) = fst (hash_weak_ptr hash_ptr b st).
Proof.
  intros Ha Hb Hp Hpi.
  assert (He : equal_to_weak_ptr a b = false).
  { apply not_true_is_false. intros He. now apply equal_to_weak_ptr_iff in He. }
  split; [exact He|]. split; [exact He|].
  rewrite !hash_weak_ptr_live by assumption. cbn. now rewrite Hp.
Qed.

Lemma same_pointer_other_group_collides_witness :
  (live Scenario.w Scenario.st /\ live (WeakPtr 8192 4352) Scenario.st /\
   wp_ptr Scenario.w = wp_ptr (WeakPtr 8192 4352) /\
   wp_pi Scenario.w <> wp_pi (WeakPtr 8192 4352)) /\
  equal_to_weak_ptr Scenario.w (WeakPtr 8192 4352) = false /\
  compare_weak_ptr Scenario.w (WeakPtr 8192 4352) = false /\
  fst (hash_weak_ptr libstdcxx_hash_ptr Scenario.w Scenario.st) =
  fst (hash_weak_ptr libstdcxx_hash_ptr (WeakPtr 8192 4352) Scenario.st).
Proof.
  split; [repeat split; discriminate|].
  apply (same_pointer_other_group_collides libstdcxx_hash_ptr Scenario.st
           Scenario.w (WeakPtr 8192 4352));
    [reflexivity | reflexivity | reflexivity | discriminate].
Defined.

(** X3.  A live reference never compares equal to a reference without a
    control block (a default-constructed one), in either argument order
    and for both equality entry points. *)
Theorem live_never_equals_empty (st : store) (a b : weak_ptr) :
  live a st -> wp_pi b = nullptr ->
  equal_to_weak_ptr a b = false /\ equal_to_weak_ptr b a = false /\
  compare_weak_ptr a b = false /\ compare_weak_ptr b a = false.
Proof.
  intros Ha Hb.
  assert (Hne : wp_pi a <> wp_pi b).
  { unfold live, expired, use_count in Ha. apply Nat.eqb_neq in Ha.
    destruct (get_use_count_pos _ _ Ha) as [Hn _]. congruence. }
  assert (He : equal_to_weak_ptr a b = false).
  { apply not_true_is_false. intros He. now apply equal_to_weak_ptr_iff in He. }
  assert (He' : equal_to_weak_ptr b a = false)
    by now rewrite equal_to_weak_ptr_comm.
  repeat split; assumption.
Qed.

Lemma live_never_equals_empty_witness :
  (live Scenario.wq Scenario.st /\ wp_pi weak_ptr_empty = nullptr) /\
  equal_to_weak_ptr Scenario.wq weak_ptr_empty = false /\
  equal_to_weak_ptr weak_ptr_empty Scenario.wq = false /\
  compare_weak_ptr Scenario.wq weak_ptr_empty = false /\
  compare_weak_ptr weak_ptr_empty Scenario.wq = false.
Proof.
  split; [split; reflexivity|].
  apply (live_never_equals_empty Scenario.st Scenario.wq weak_ptr_empty); reflexivity.
Defined.

(** X4.  The hash of a key is not stable over the life of its entity.
    Take a reference whose stored pointer the pointer hash tells apart
    from [nullptr].  While the entity has its one owner the reference is
    live and hashes to the pointer hash of its stored pointer; once that
    owner is destroyed the reference is expired and hashes to the pointer
    hash of [nullptr]; so the two hashes of the same reference differ. *)
Theorem hash_changes_on_expiry
    (hash_ptr : Z -> Z) (st : store) (e : shared_ptr) (w : weak_ptr) :
  shared_use_count e st = 1%nat -> wp_pi w = sp_pi e ->
  hash_ptr (wp_ptr w) <> hash_ptr nullptr ->
  live w st /\
  fst (hash_weak_ptr hash_ptr w st) = hash_ptr (wp_ptr w) /\
  expired w (shared_ptr_dtor e st) = true /\
  fst (hash_weak_ptr hash_ptr w (shared_ptr_dtor e st)) = hash_ptr nullptr /\
  fst (hash_weak_ptr hash_ptr w st) <>
  fst (hash_weak_ptr hash_ptr w (shared_ptr_dtor e st)).
Proof.
  unfold shared_use_count. intros Hu Hpi Hh.
  assert (Hl : live w st).
  { unfold live, expired, use_count. now rewrite Hpi, Hu. }
  assert (Hx : expired w (shared_ptr_dtor e st) = true).
  { unfold expired, use_count, shared_ptr_dtor.
    now rewrite Hpi, get_use_count_release_last. }
  rewrite (hash_weak_ptr_live hash_ptr w st Hl).
  rewrite (hash_weak_ptr_expired hash_ptr w _ Hx). cbn [fst].
  repeat split; assumption.
Qed.

Lemma hash_changes_on_expiry_witness :
  (shared_use_count Scenario.e' Scenario.st = 1%nat /\
   wp_pi Scenario.w' = sp_pi Scenario.e' /\
   libstdcxx_hash_ptr (wp_ptr Scenario.w') <> libstdcxx_hash_ptr nullptr) /\
  live Scenario.w' Scenario.st /\
  fst (hash_weak_ptr libstdcxx_hash_ptr Scenario.w' Scenario.st) =
    libstdcxx_hash_ptr (wp_ptr Scenario.w') /\
  expired Scenario.w' (shared_ptr_dtor Scenario.e' Scenario.st) = true /\
  fst (hash_weak_ptr libstdcxx_hash_ptr Scenario.w'
         (shared_ptr_dtor Scenario.e' Scenario.st)) = libstdcxx_hash_ptr nullptr /\
  fst (hash_weak_ptr libstdcxx_hash_ptr Scenario.w' Scenario.st) <>
  fst (hash_weak_ptr libstdcxx_hash_ptr Scenario.w'
         (shared_ptr_dtor Scenario.e' Scenario.st)).
Proof.
  split; [repeat split; discriminate|].
  apply (hash_changes_on_expiry libstdcxx_hash_ptr Scenario.st Scenario.e' Scenario.w');
    [reflexivity | reflexivity | discriminate].
Defined.

(** X5.  Equal references are interchangeable: when the equality holds
    between [a] and [b], every third reference [c], expired and empty
    ones included, compares and orders against [a] exactly as it does
    against [b]. *)
Theorem equal_references_interchangeable (a b c : weak_ptr) :
  equal_to_weak_ptr a b = true ->
  equal_to_weak_ptr a c = equal_to_weak_ptr b c /\
  compare_weak_ptr c a = compare_weak_ptr c b /\
  owner_before a c = owner_before b c /\
  owner_before c a = owner_before c b.
Proof.
  intros H. apply equal_to_weak_ptr_iff in H.
  unfold same_ownership_group, ownership_group in H.
  unfold equal_to_weak_ptr, compare_weak_ptr, owner_before.
  rewrite H. repeat split.
Qed.

Lemma equal_references_interchangeable_witness :
  equal_to_weak_ptr Scenario.w Scenario.wq = true /\
  equal_to_weak_ptr Scenario.w Scenario.w' = equal_to_weak_ptr Scenario.wq Scenario.w' /\
  compare_weak_ptr Scenario.w' Scenario.w = compare_weak_ptr Scenario.w' Scenario.wq /\
  owner_before Scenario.w Scenario.w' = owner_before Scenario.wq Scenario.w' /\
  owner_before Scenario.w' Scenario.w = owner_before Scenario.w' Scenario.wq.
Proof.
  split; [reflexivity|].
  apply (equal_references_interchangeable Scenario.w Scenario.wq Scenario.w').
  reflexivity.
Defined.

(** X6.  Views of one entity through an aliasing strong reference: when
    [q] shares the ownership of a live [e] but stores the pointer [p],
    a view of [e] and a view of [q] are both live and equal, and their
    hashes agree exactly when the pointer hash gives [e]'s stored pointer
    and [p] the same value. *)
Theorem aliased_views_equal_hash_iff
    (hash_ptr : Z -> Z) (st : store) (e : shared_ptr) (p : Z) :
  shared_use_count e st <> 0%nat ->
  let '(q, st1) := shared_ptr_alias e p st in
  let '(w, st2) := weak_ptr_of_shared e st1 in
  let '(wq, st3) := weak_ptr_of_shared q st2 in
  live w st3 /\ live wq st3 /\
  equal_to_weak_ptr w wq = true /\ compare_weak_ptr w wq = true /\
  (fst (hash_weak_ptr hash_ptr w st3) = fst (hash_weak_ptr hash_ptr wq st3) <->
   hash_ptr (sp_ptr e) = hash_ptr p).
Proof.
  unfold shared_use_count. intros H.
  unfold shared_ptr_alias, weak_ptr_of_shared. cbv beta iota. cbn [sp_ptr sp_pi].
  pose proof (live_after_joining (sp_ptr e) (sp_pi e) st H) as Hw.
  pose proof (live_after_joining p (sp_pi e) st H) as Hq.
  split; [exact Hw|]. split; [exact Hq|].
  split; [apply equal_to_weak_ptr_iff; reflexivity|].
  split; [apply compare_weak_ptr_iff; reflexivity|].
  rewrite !hash_weak_ptr_live by assumption. reflexivity.
Qed.

Lemma aliased_views_equal_hash_iff_witness :
  shared_use_count Scenario.e (snd Scenario.e'_st) <> 0%nat /\
  live Scenario.w (snd Scenario.w2_st) /\
  live (WeakPtr 8200 4096) (snd Scenario.w2_st) /\
  equal_to_weak_ptr Scenario.w (WeakPtr 8200 4096) = true /\
  compare_weak_ptr Scenario.w (WeakPtr 8200 4096) = true /\
  (fst (hash_weak_ptr libstdcxx_hash_ptr Scenario.w (snd Scenario.w2_st)) =
   fst (hash_weak_ptr libstdcxx_hash_ptr (WeakPtr 8200 4096) (snd Scenario.w2_st)) <->
   libstdcxx_hash_ptr (sp_ptr Scenario.e) = libstdcxx_hash_ptr 8200).
Proof.
  split; [discriminate|].
  apply (aliased_views_equal_hash_iff libstdcxx_hash_ptr
           (snd Scenario.e'_st) Scenario.e 8200).
  discriminate.
Defined.

(** X7.  Views of one entity through a copy of its strong reference:
    when [e2] is a copy of a live [e], the copy counts as one more owner,
    and a view of [e] and a view of [e2] are both live, equal, and hash
    alike. *)
Theorem copied_views_agree
    (hash_ptr : Z -> Z) (st : store) (e : shared_ptr) :
  shared_use_count e st <> 0%nat ->
  let '(e2, st1) := shared_ptr_copy e st in
  let '(w, st2) := weak_ptr_of_shared e st1 in
  let '(w2, st3) := weak_ptr_of_shared e2 st2 in
  shared_use_count e2 st3 = S (shared_use_count e st) /\
  live w st3 /\ live w2 st3 /\
  equal_to_weak_ptr w w2 = true /\ compare_weak_ptr w w2 = true /\
  fst (hash_weak_ptr hash_ptr w st3) = fst (hash_weak_ptr hash_ptr w2 st3).
Proof.
  unfold shared_use_count. intros H.
  unfold shared_ptr_copy, weak_ptr_of_shared. cbv beta iota. cbn [sp_ptr sp_pi].
  pose proof (live_after_joining (sp_ptr e) (sp_pi e) st H) as Hw.
  split.
  { rewrite !get_use_count_weak_add_ref. now apply get_use_count_add_ref_copy. }
  split; [exact Hw|]. split; [exact Hw|].
  split; [apply equal_to_weak_ptr_iff; reflexivity|].
  split; [apply compare_weak_ptr_iff; reflexivity|].
  reflexivity.
Qed.

Lemma copied_views_agree_witness :
  shared_use_count Scenario.e' Scenario.st <> 0%nat /\
  let '(e2, st1) := shared_ptr_copy Scenario.e' Scenario.st in
  let '(w, st2) := weak_ptr_of_shared Scenario.e' st1 in
  let '(w2, st3) := weak_ptr_of_shared e2 st2 in
  shared_use_count e2 st3 = S (shared_use_count Scenario.e' Scenario.st) /\
  live w st3 /\ live w2 st3 /\
  equal_to_weak_ptr w w2 = true /\ compare_weak_ptr w w2 = true /\
  fst (hash_weak_ptr libstdcxx_hash_ptr w st3) =
  fst (hash_weak_ptr libstdcxx_hash_ptr w2 st3).
Proof.
  split; [discriminate|].
  apply (copied_views_agree libstdcxx_hash_ptr Scenario.st Scenario.e').
  discriminate.
Defined.
